(** * Unison: conversation and connection management of [src/App.vue]

    A shallow embedding of the [<script setup>] block of the single
    component of the application: the reactive references become the
    fields of one [State] record, every function of the script becomes a
    function on [State], and the events the component reacts to (the
    mount hook, the events of the PeerJS collaborator, the handlers and
    the [v-model] bindings of the template) become the constructors of
    [Event], dispatched by [step].

    The collaborators are modelled by what the component observes of
    them: [uuidv4()] by the token it returns (carried by the event that
    makes the call), the PeerJS objects by the calls issued on them
    (logged in [calls]) and [setTimeout] by the list of pending timers. *)

From stdpp Require Import gmap strings list.

(** ** JavaScript values *)

(** Truthiness of a string: only the empty string is falsy. *)
Definition truthy (v : string) : bool :=
  match v with
  | EmptyString => false
  | String _ _ => true
  end.

(** [v.substring(0, n)]: the first [n] characters, fewer when [v] is shorter. *)
Definition substring0 (n : nat) (v : string) : string := String.substring 0 n v.

(** A handler either runs to completion or is aborted by an exception. *)
Inductive JsError := TypeError.

Inductive result (A : Type) :=
| Ok (a : A)
| Throw (e : JsError).
Arguments Ok {A} a.
Arguments Throw {A} e.

(** ** The PeerJS collaborator *)

Module Peer.
(** [Peer.DataConnection]: the component reads [conn.peer] only, and a
    handle is described by that field alone: two handles to the same
    peer are not told apart. *)
Record DataConnection := mkDataConnection { peer : string }.

(** The object made by [new Peer()]. *)
Inductive t := New.

(** Calls the component issues on the transport. *)
Inductive Call :=
| Connect (remote : string)
| Send (conn : DataConnection) (data : string).

#[global] Instance DataConnection_eq_dec : EqDecision DataConnection.
Proof. solve_decision. Defined.
End Peer.

(** ** Data model *)

Record Message := mkMessage { sender : string; content : string }.

Module Conversation.
Record t := mk {
  id : string;
  title : string;
  peerId : string;
  messages : list Message
}.

Definition set_title (v : string) (c : t) : t :=
  mk (id c) v (peerId c) (messages c).

(** [c.messages.push(m)] *)
Definition push_message (m : Message) (c : t) : t :=
  mk (id c) (title c) (peerId c) (messages c ++ [m]).
End Conversation.

(** Callbacks handed to [setTimeout]. *)
Inductive Callback := ClearErrorMessage.

Record State := mkState {
  peerId : string;
  remotePeerId : string;
  message : string;
  conversations : list Conversation.t;
  activeConversationId : option string;
  peer : option Peer.t;
  connections : gmap string Peer.DataConnection;
  errorMessage : string;
  (* the environment *)
  calls : list Peer.Call;
  timers : list (nat * Callback)
}.

(** The references as the script initialises them. *)
Definition init : State :=
  {| peerId := ""; remotePeerId := ""; message := "";
     conversations := []; activeConversationId := None;
     peer := None; connections := ∅; errorMessage := "";
     calls := []; timers := [] |}.

Section Setters.
Variable s : State.

Definition set_peerId v :=
  mkState v (remotePeerId s) (message s) (conversations s)
    (activeConversationId s) (peer s) (connections s) (errorMessage s)
    (calls s) (timers s).
Definition set_remotePeerId v :=
  mkState (peerId s) v (message s) (conversations s)
    (activeConversationId s) (peer s) (connections s) (errorMessage s)
    (calls s) (timers s).
Definition set_message v :=
  mkState (peerId s) (remotePeerId s) v (conversations s)
    (activeConversationId s) (peer s) (connections s) (errorMessage s)
    (calls s) (timers s).
Definition set_conversations v :=
  mkState (peerId s) (remotePeerId s) (message s) v
    (activeConversationId s) (peer s) (connections s) (errorMessage s)
    (calls s) (timers s).
Definition set_activeConversationId v :=
  mkState (peerId s) (remotePeerId s) (message s) (conversations s)
    v (peer s) (connections s) (errorMessage s)
    (calls s) (timers s).
Definition set_peer v :=
  mkState (peerId s) (remotePeerId s) (message s) (conversations s)
    (activeConversationId s) v (connections s) (errorMessage s)
    (calls s) (timers s).
Definition set_connections v :=
  mkState (peerId s) (remotePeerId s) (message s) (conversations s)
    (activeConversationId s) (peer s) v (errorMessage s)
    (calls s) (timers s).
Definition set_errorMessage v :=
  mkState (peerId s) (remotePeerId s) (message s) (conversations s)
    (activeConversationId s) (peer s) (connections s) v
    (calls s) (timers s).
Definition set_calls v :=
  mkState (peerId s) (remotePeerId s) (message s) (conversations s)
    (activeConversationId s) (peer s) (connections s) (errorMessage s)
    v (timers s).
Definition set_timers v :=
  mkState (peerId s) (remotePeerId s) (message s) (conversations s)
    (activeConversationId s) (peer s) (connections s) (errorMessage s)
    (calls s) v.
End Setters.

(** ** The script *)

(** [l.find(c => c.id === v)] and [l.findIndex(c => c.id === v)] at once:
    the position of the first match and the record found there. *)
Definition find_id (v : string) (l : list Conversation.t)
  : option (nat * Conversation.t) :=
  list_find (λ c, Conversation.id c = v) l.

(** [l.find(c => c.peerId === v)], with its position. *)
Definition find_peerId (v : string) (l : list Conversation.t)
  : option (nat * Conversation.t) :=
  list_find (λ c, Conversation.peerId c = v) l.

(** The computed [activeConversation]; no [c.id] is [=== null]. *)
Definition activeConversation (s : State) : option (nat * Conversation.t) :=
  match activeConversationId s with
  | Some a => find_id a (conversations s)
  | None => None
  end.

(** The [data] listener that [setupConnection] installs on [conn]. *)
Definition onData (conn : Peer.DataConnection) (data : string) (s : State)
  : State :=
  match find_peerId (Peer.peer conn) (conversations s) with
  | Some (i, _) =>
      set_conversations s
        (alter (Conversation.push_message (mkMessage "Remote" data)) i
           (conversations s))
  | None => s
  end.

(** [setupConnection(conn)], where [u] is what [uuidv4()] returns. *)
Definition setupConnection (conn : Peer.DataConnection) (u : string)
    (s : State) : State :=
  let s1 := set_connections s (<[Peer.peer conn := conn]> (connections s)) in
  let newConversation :=
    Conversation.mk u
      ("Chat with " +:+ substring0 6 (Peer.peer conn) +:+ "...")
      (Peer.peer conn) [] in
  let s2 := set_conversations s1 (conversations s1 ++ [newConversation]) in
  set_activeConversationId s2 (Some (Conversation.id newConversation)).

(** [connect()]; [u] is the token [uuidv4()] returns if it gets called. *)
Definition connect (u : string) (s : State) : State :=
  match peer s with
  | Some _ =>
      if truthy (remotePeerId s) then
        if decide (remotePeerId s = peerId s) then
          let s1 := set_errorMessage s "You can't connect to yourself!" in
          set_timers s1 (timers s1 ++ [(3000, ClearErrorMessage)])
        else
          let conn := Peer.mkDataConnection (remotePeerId s) in
          let s1 := set_calls s (calls s ++ [Peer.Connect (remotePeerId s)]) in
          setupConnection conn u s1
      else s
  | None => s
  end.

(** The registry is a plain object ([ref<{ [key: string]: ... }>({})]),
    so [connections.value[k]] finds the handle stored under [k] and, for
    a name with no handle, whatever the object inherits under that name.
    These are the names a plain object inherits from [Object.prototype];
    each is bound there to a function or an object: a truthy value that
    has no [send] method. *)
Definition object_prototype_names : list string :=
  ["constructor"; "hasOwnProperty"; "isPrototypeOf"; "propertyIsEnumerable";
   "toLocaleString"; "toString"; "valueOf";
   "__defineGetter__"; "__defineSetter__";
   "__lookupGetter__"; "__lookupSetter__"; "__proto__"].

(** What [connections.value[k]] evaluates to. *)
Inductive Property :=
| Own (conn : Peer.DataConnection)
| Inherited
| Undefined.

(** [connections.value[k]]. An assignment under the name ["__proto__"]
    replaces the prototype of the object instead of adding a property,
    and a read under that name returns the prototype: the entry of the
    map under ["__proto__"] stands for that link. While there is no such
    entry the prototype is [Object.prototype]. What else a registry
    inherits once a connection object has become its prototype belongs
    to PeerJS and is not described; [prototype_intact] excludes it. *)
Definition registry_get (m : gmap string Peer.DataConnection) (k : string)
  : Property :=
  match m !! k with
  | Some conn => Own conn
  | None => if decide (k ∈ object_prototype_names) then Inherited else Undefined
  end.


(** [sendMessage()]. Reading [.peerId] of a null [activeConversation]
    throws before anything is written; so does calling [send] on a value
    inherited from the prototype, which passes the guard. *)
Definition sendMessage (s : State) : result State :=
  match activeConversationId s with
  | Some a =>
      if truthy a then
        match activeConversation s with
        | Some (i, c) =>
            match registry_get (connections s) (Conversation.peerId c) with
            | Own conn =>
                if truthy (message s) then
                  let s1 := set_calls s (calls s ++ [Peer.Send conn (message s)]) in
                  let s2 :=
                    set_conversations s1
                      (alter (Conversation.push_message (mkMessage "You" (message s1)))
                         i (conversations s1)) in
                  Ok (set_message s2 "")
                else Ok s
            | Inherited =>
                if truthy (message s) then Throw TypeError else Ok s
            | Undefined => Ok s
            end
        | None => Throw TypeError
        end
      else Ok s
  | None => Ok s
  end.

Definition newConversation (s : State) : State :=
  set_activeConversationId (set_remotePeerId s "") None.

Definition deleteConversation (v : string) (s : State) : State :=
  match find_id v (conversations s) with
  | Some (index, _) =>
      let s1 := set_conversations s (delete index (conversations s)) in
      if decide (activeConversationId s1 = Some v) then
        set_activeConversationId s1
          (match conversations s1 with
           | c :: _ => Some (Conversation.id c)
           | [] => None
           end)
      else s1
  | None => s
  end.

Definition renameConversation (v newTitle : string) (s : State) : State :=
  match find_id v (conversations s) with
  | Some (i, _) =>
      set_conversations s
        (alter (Conversation.set_title newTitle) i (conversations s))
  | None => s
  end.

(** ** Events *)

(** Everything the component reacts to. The arguments of the script's
    functions are left free (the template only ever passes the [id] of a
    rendered conversation), so every run of the application is a run
    of this model. *)
Inductive Event :=
(* lifecycle and transport *)
| Mounted
| PeerOpen (v : string)
| PeerConnection (conn : Peer.DataConnection) (u : string)
| ConnData (conn : Peer.DataConnection) (data : string)
| ConnOpen (conn : Peer.DataConnection)
| TimerFired (n : nat)
(* the template *)
| InputRemotePeerId (v : string)
| InputMessage (v : string)
| InputTitle (n : nat) (v : string)
| ClickMessages (n : nat)
| CallConnect (u : string)
| CallSendMessage
| CallNewConversation
| CallDeleteConversation (v : string)
| CallRenameConversation (v newTitle : string).

(** [onMounted]: the [Peer] is created and its two listeners installed. *)
Definition onMounted (s : State) : State := set_peer s (Some Peer.New).

Definition runCallback (cb : Callback) (s : State) : State :=
  match cb with
  | ClearErrorMessage => set_errorMessage s ""
  end.

(** One event, handled to completion. The listeners of the [Peer] exist
    once it has been created; a connection's [open] event has no listener;
    a handler that throws has written nothing before it does. *)
Definition step (s : State) (e : Event) : State :=
  match e with
  | Mounted => onMounted s
  | PeerOpen v =>
      match peer s with
      | Some _ => set_peerId s v
      | None => s
      end
  | PeerConnection conn u =>
      match peer s with
      | Some _ => setupConnection conn u s
      | None => s
      end
  | ConnData conn data => onData conn data s
  | ConnOpen _ => s
  | TimerFired n =>
      match timers s !! n with
      | Some (_, cb) => runCallback cb (set_timers s (delete n (timers s)))
      | None => s
      end
  | InputRemotePeerId v => set_remotePeerId s v
  | InputMessage v => set_message s v
  | InputTitle n v =>
      set_conversations s (alter (Conversation.set_title v) n (conversations s))
  | ClickMessages n =>
      match conversations s !! n with
      | Some conv => set_activeConversationId s (Some (Conversation.id conv))
      | None => s
      end
  | CallConnect u => connect u s
  | CallSendMessage =>
      match sendMessage s with
      | Ok s' => s'
      | Throw _ => s
      end
  | CallNewConversation => newConversation s
  | CallDeleteConversation v => deleteConversation v s
  | CallRenameConversation v newTitle => renameConversation v newTitle s
  end.

(** The state after a sequence of events, oldest first. *)
Definition run (s : State) (tr : list Event) : State := foldl step s tr.

(** ** Properties of states *)

Definition ids (s : State) : list string :=
  Conversation.id <$> conversations s.

Definition peerIds (s : State) : list string :=
  Conversation.peerId <$> conversations s.

(** [activeConversationId] is null or the id of a listed conversation. *)
Definition active_valid (s : State) : Prop :=
  match activeConversationId s with
  | Some a => a ∈ ids s
  | None => True
  end.

(** No two listed conversations have the same [peerId]. *)
Definition peerIds_unique (s : State) : Prop := NoDup (peerIds s).

(** The token an event carries, if it carries one, is non-empty. *)
Definition token_truthy (e : Event) : Prop :=
  match e with
  | PeerConnection _ u | CallConnect u => truthy u = true
  | _ => True
  end.

(** The step [e] taken in [s] is a run of [setupConnection] for peer [p]
    (from the [connection] listener or from [connect]). *)
Definition sets_up (s : State) (e : Event) (p : string) : Prop :=
  ∃ conn u s1,
    step s e = setupConnection conn u s1 ∧
    conversations s1 = conversations s ∧
    Peer.peer conn = p.

(** ** The template's conditions *)

(** [v-if="!activeConversationId"] on the connect form: shown when the
    reference is null (or the empty string). *)
Definition showConnectForm (s : State) : bool :=
  match activeConversationId s with
  | Some a => negb (truthy a)
  | None => true
  end.

(** [v-if="activeConversationId === conv.id"] on the message input of the
    box of [conv] (the same test gives the box its [active] class). *)
Definition showMessageInput (s : State) (conv : Conversation.t) : bool :=
  bool_decide (activeConversationId s = Some (Conversation.id conv)).

(** [v-if="errorMessage"], which sits inside the connect form. *)
Definition showErrorMessage (s : State) : bool :=
  showConnectForm s && truthy (errorMessage s).

(** ** Tokens and transport calls along a run *)

(** The token an event carries for [uuidv4()]. *)
Definition token (e : Event) : list string :=
  match e with
  | PeerConnection _ u | CallConnect u => [u]
  | _ => []
  end.

Definition tokens (tr : list Event) : list string := tr ≫= token.

(** What the component may ask of the transport: a connection to a
    non-empty identifier, or a non-empty payload on a handle. *)
Definition call_nonempty (c : Peer.Call) : Prop :=
  match c with
  | Peer.Connect remote => remote ≠ ""
  | Peer.Send _ data => data ≠ ""
  end.

(** The two values [sender] is ever given. *)
Definition sender_known (m : Message) : Prop :=
  sender m = "You" ∨ sender m = "Remote".

(** The registry stores a handle under the identifier of its own peer. *)
Definition registry_keyed (s : State) : Prop :=
  ∀ p conn, connections s !! p = Some conn → Peer.peer conn = p.

Lemma truthy_nonempty (v : string) : v ≠ "" → truthy v = true.
Proof. by destruct v. Qed.

Lemma truthy_empty (v : string) : truthy v = false → v = "".
Proof. by destruct v. Qed.

Lemma registry_get_own (m : gmap string Peer.DataConnection) k conn :
  m !! k = Some conn → registry_get m k = Own conn.
Proof. intros Hk. unfold registry_get. by rewrite Hk. Qed.



(** ** Lists of records: first match, update and removal in place *)

Section FirstMatch.
Context {A : Type} (P : A → Prop) `{!∀ x, Decision (P x)}.

(** A successful search cuts the list at the first match. *)
Lemma list_find_split (l : list A) (i : nat) (x : A) :
  list_find P l = Some (i, x) →
  ∃ l1 l2, l = l1 ++ x :: l2 ∧ length l1 = i ∧ P x ∧ Forall (λ y, ¬ P y) l1.
Proof.
  intros (Hi & HP & Hleast)%list_find_Some.
  exists (take i l), (drop (S i) l).
  assert (i < length l) by eauto using lookup_lt_Some.
  split_and!; [by rewrite take_drop_middle | rewrite length_take; lia | done |].
  apply Forall_lookup. intros j y Hj.
  assert (j < i) by (apply lookup_lt_Some in Hj; rewrite length_take in Hj; lia).
  rewrite lookup_take_lt in Hj by done. eauto.
Qed.

Lemma list_find_middle (l1 l2 : list A) (x : A) :
  Forall (λ y, ¬ P y) l1 → P x →
  list_find P (l1 ++ x :: l2) = Some (length l1, x).
Proof.
  intros Hl1 HP. apply list_find_Some. split_and!.
  - by rewrite list_lookup_middle.
  - done.
  - intros j y Hj Hlt. rewrite lookup_app_l in Hj by done.
    eapply Forall_lookup_1 in Hl1; eauto.
Qed.
End FirstMatch.

Lemma alter_middle {A} (f : A → A) (l1 l2 : list A) (x : A) :
  alter f (length l1) (l1 ++ x :: l2) = l1 ++ f x :: l2.
Proof. rewrite alter_app_r_alt, Nat.sub_diag by done. done. Qed.

Lemma fmap_alter_fixed {A B} (g : A → B) (f : A → A) (l : list A) (i : nat) :
  (∀ x, g (f x) = g x) → g <$> alter f i l = g <$> l.
Proof.
  intros Hf. revert i.
  induction l as [|x l IH]; intros [|i]; csimpl; f_equal; auto.
Qed.

(** ** The active conversation is always a listed one *)

Lemma ids_alter_push m i (l : list Conversation.t) :
  Conversation.id <$> alter (Conversation.push_message m) i l
  = Conversation.id <$> l.
Proof. by apply fmap_alter_fixed. Qed.

Lemma ids_alter_title v i (l : list Conversation.t) :
  Conversation.id <$> alter (Conversation.set_title v) i l
  = Conversation.id <$> l.
Proof. by apply fmap_alter_fixed. Qed.

Lemma setupConnection_active_valid conn u s :
  active_valid (setupConnection conn u s).
Proof.
  unfold active_valid, ids; simpl. rewrite fmap_app. set_solver.
Qed.

Lemma onData_active_valid conn data s :
  active_valid s → active_valid (onData conn data s).
Proof.
  unfold onData. destruct (find_peerId _ _) as [[i c]|]; [|done].
  unfold active_valid, ids; simpl. by rewrite ids_alter_push.
Qed.

Lemma connect_active_valid u s :
  active_valid s → active_valid (connect u s).
Proof.
  unfold connect. intros Hs.
  destruct (peer s); [|done].
  destruct (truthy _); [|done].
  case_decide; [done|]. apply setupConnection_active_valid.
Qed.

Lemma sendMessage_active_valid s s' :
  active_valid s → sendMessage s = Ok s' → active_valid s'.
Proof.
  unfold sendMessage, activeConversation. intros Hs Hsend.
  destruct (activeConversationId s) as [a|] eqn:Ha; [|by simplify_eq].
  destruct (truthy a); [|by simplify_eq].
  destruct (find_id a _) as [[i c]|]; [|done].
  destruct (registry_get _ _);
    [|destruct (truthy (message s)); by simplify_eq|by simplify_eq].
  destruct (truthy (message s)); simplify_eq; [|done].
  unfold active_valid, ids in *; simpl. by rewrite ids_alter_push.
Qed.

Lemma deleteConversation_active_valid v s :
  active_valid s → active_valid (deleteConversation v s).
Proof.
  unfold deleteConversation, find_id. intros Hs.
  destruct (list_find _ _) as [[index c]|] eqn:Hfind; [|done].
  apply list_find_split in Hfind as (l1 & l2 & Hl & Hlen & Hc & _).
  simpl. case_decide as Hact.
  - unfold active_valid, ids; simpl.
    destruct (delete index (conversations s)) as [|c0 cs]; [done|].
    set_solver.
  - unfold active_valid, ids in *; simpl in *.
    destruct (activeConversationId s) as [a|]; [|done].
    rewrite Hl in Hs |- *. rewrite <- Hlen, delete_middle.
    rewrite fmap_app in Hs |- *. rewrite fmap_cons in Hs.
    assert (a ≠ Conversation.id c) by congruence.
    apply elem_of_app in Hs as [?|[?|?]%elem_of_cons];
      [apply elem_of_app; by left | done | apply elem_of_app; by right].
Qed.

Lemma renameConversation_active_valid v t s :
  active_valid s → active_valid (renameConversation v t s).
Proof.
  unfold renameConversation. destruct (find_id _ _) as [[i c]|]; [|done].
  unfold active_valid, ids; simpl. by rewrite ids_alter_title.
Qed.

Lemma step_active_valid s e : active_valid s → active_valid (step s e).
Proof.
  intros Hs. destruct e; simpl.
  - done.
  - by destruct (peer s).
  - destruct (peer s); [apply setupConnection_active_valid | done].
  - by apply onData_active_valid.
  - done.
  - destruct (timers s !! n) as [[d []]|]; done.
  - done.
  - done.
  - unfold active_valid, ids in *; simpl. by rewrite ids_alter_title.
  - destruct (conversations s !! n) as [conv|] eqn:Hn; [|done].
    unfold active_valid, ids; simpl.
    apply list_elem_of_fmap_2. by eapply list_elem_of_lookup_2.
  - by apply connect_active_valid.
  - destruct (sendMessage s) eqn:Hsend; [|done].
    by eapply sendMessage_active_valid.
  - done.
  - by apply deleteConversation_active_valid.
  - by apply renameConversation_active_valid.
Qed.

Lemma run_active_valid tr s : active_valid s → active_valid (run s tr).
Proof.
  revert s. induction tr as [|e tr IH]; intros s Hs; [done|].
  apply IH. by apply step_active_valid.
Qed.

(** C1. After every sequence of events (mounting, transport events,
    connection setup, connect, send, new-conversation, delete, rename,
    inbound data, and the template's own bindings) starting from the
    initial state, [activeConversationId] is null or the [id] of a
    conversation in [conversations]. *)
Theorem C1_active_conversation_always_listed (tr : list Event) :
  match activeConversationId (run init tr) with
  | Some a => ∃ c, c ∈ conversations (run init tr) ∧ Conversation.id c = a
  | None => True
  end.
Proof.
  pose proof (run_active_valid tr init I) as H.
  unfold active_valid, ids in H.
  destruct (activeConversationId (run init tr)) as [a|]; [|done].
  apply list_elem_of_fmap in H as (c & -> & Hc). eauto.
Qed.

(** ** Uniqueness of [peerId] among the listed conversations *)

Lemma peerIds_alter_push m i (l : list Conversation.t) :
  Conversation.peerId <$> alter (Conversation.push_message m) i l
  = Conversation.peerId <$> l.
Proof. by apply fmap_alter_fixed. Qed.

Lemma peerIds_alter_title v i (l : list Conversation.t) :
  Conversation.peerId <$> alter (Conversation.set_title v) i l
  = Conversation.peerId <$> l.
Proof. by apply fmap_alter_fixed. Qed.

Lemma peerIds_setupConnection conn u s :
  peerIds (setupConnection conn u s) = peerIds s ++ [Peer.peer conn].
Proof. unfold peerIds; simpl. by rewrite fmap_app. Qed.

Lemma setupConnection_unique conn u s :
  peerIds_unique s →
  peerIds_unique (setupConnection conn u s) ↔ Peer.peer conn ∉ peerIds s.
Proof.
  intros Hs. unfold peerIds_unique. rewrite peerIds_setupConnection.
  rewrite NoDup_app. split.
  - intros (_ & Hdisj & _) Hin. apply (Hdisj _ Hin). by apply list_elem_of_singleton.
  - intros Hfresh. split_and!; [done | | apply NoDup_singleton].
    intros x Hx ->%list_elem_of_singleton. done.
Qed.

Lemma onData_peerIds conn data s : peerIds (onData conn data s) = peerIds s.
Proof.
  unfold onData. destruct (find_peerId _ _) as [[i c]|]; [|done].
  unfold peerIds; simpl. apply peerIds_alter_push.
Qed.

Lemma sendMessage_peerIds s s' : sendMessage s = Ok s' → peerIds s' = peerIds s.
Proof.
  unfold sendMessage, activeConversation. intros Hsend.
  destruct (activeConversationId s) as [a|]; [|by simplify_eq].
  destruct (truthy a); [|by simplify_eq].
  destruct (find_id a _) as [[i c]|]; [|done].
  destruct (registry_get _ _);
    [|destruct (truthy (message s)); by simplify_eq|by simplify_eq].
  destruct (truthy (message s)); simplify_eq; [|done].
  unfold peerIds; simpl. apply peerIds_alter_push.
Qed.

Lemma renameConversation_peerIds v t s :
  peerIds (renameConversation v t s) = peerIds s.
Proof.
  unfold renameConversation. destruct (find_id _ _) as [[i c]|]; [|done].
  unfold peerIds; simpl. apply peerIds_alter_title.
Qed.

Lemma deleteConversation_unique v s :
  peerIds_unique s → peerIds_unique (deleteConversation v s).
Proof.
  unfold deleteConversation. intros Hs.
  destruct (find_id _ _) as [[index c]|]; [|done].
  assert (NoDup (Conversation.peerId <$> delete index (conversations s))).
  { rewrite list_fmap_delete. eapply sublist_NoDup; [exact Hs|].
    apply sublist_delete. }
  simpl. by case_decide.
Qed.

(** Every event either leaves uniqueness alone or is a connection setup. *)
Lemma step_unique_or_sets_up s e :
  peerIds_unique s →
  peerIds_unique (step s e) ∨ ∃ p, sets_up s e p.
Proof.
  intros Hs. unfold peerIds_unique.
  destruct e; simpl; try (by left).
  - destruct (peer s); by left.
  - destruct (peer s) eqn:Hp; [|by left]. right.
    exists (Peer.peer conn), conn, u, s. unfold step. by rewrite Hp.
  - left. by rewrite onData_peerIds.
  - left. destruct (timers s !! n) as [[d []]|]; done.
  - left. unfold peerIds; simpl. by rewrite peerIds_alter_title.
  - left. by destruct (conversations s !! n).
  - unfold connect. destruct (peer s) eqn:Hp; [|by left].
    destruct (truthy (remotePeerId s)) eqn:Hr; [|by left].
    case_decide as Hself; [by left|]. right.
    eexists (remotePeerId s), _, u, _. unfold step, connect.
    rewrite Hp, Hr. rewrite decide_False by done. done.
  - left. destruct (sendMessage s) eqn:Hsend; [|done].
    by rewrite (sendMessage_peerIds _ _ Hsend).
  - left. by apply deleteConversation_unique.
  - left. by rewrite renameConversation_peerIds.
Qed.

(** C2, as the code has it. From a state with unique peerIds, a step
    keeps them unique exactly when it is not a connection setup for a
    peer that already has a listed conversation: [setupConnection]
    appends a conversation without looking for an existing one, and
    every other operation preserves uniqueness. *)
Theorem C2_uniqueness_kept_iff_no_repeated_setup (s : State) (e : Event) :
  peerIds_unique s →
  peerIds_unique (step s e) ↔ ∀ p, sets_up s e p → p ∉ peerIds s.
Proof.
  intros Hs. split.
  - intros Hstep p (conn & u & s1 & Heq & Hconv & <-).
    assert (peerIds_unique s1) as Hs1 by (unfold peerIds_unique, peerIds; by rewrite Hconv).
    rewrite Heq in Hstep. apply (setupConnection_unique _ _ _ Hs1) in Hstep.
    unfold peerIds in *. by rewrite <- Hconv.
  - intros Hfresh.
    destruct (step_unique_or_sets_up s e Hs) as [?|[p Hp]]; [done|].
    pose proof (Hfresh p Hp) as Hnotin.
    destruct Hp as (conn & u & s1 & Heq & Hconv & <-).
    rewrite Heq. apply setupConnection_unique.
    + unfold peerIds_unique, peerIds. by rewrite Hconv.
    + unfold peerIds in *. by rewrite Hconv.
Qed.

(** C2 as stated fails: two inbound connections from the same peer
    leave two conversations with the same [peerId]. *)
Lemma C2_counterexample :
  ¬ peerIds_unique
      (run init [Mounted;
                 PeerConnection (Peer.mkDataConnection "B2") "id-1";
                 PeerConnection (Peer.mkDataConnection "B2") "id-2"]).
Proof.
  unfold peerIds_unique. vm_compute. intros Hdup.
  apply NoDup_cons in Hdup as [Hnotin _]. apply Hnotin. by left.
Qed.

Lemma C2_witness :
  peerIds_unique (run init [Mounted; PeerConnection (Peer.mkDataConnection "B2") "id-1"]) ∧
  (peerIds_unique
     (step (run init [Mounted; PeerConnection (Peer.mkDataConnection "B2") "id-1"])
        (PeerConnection (Peer.mkDataConnection "C3") "id-2"))
   ↔ ∀ p, sets_up (run init [Mounted; PeerConnection (Peer.mkDataConnection "B2") "id-1"])
            (PeerConnection (Peer.mkDataConnection "C3") "id-2") p →
          p ∉ peerIds (run init [Mounted; PeerConnection (Peer.mkDataConnection "B2") "id-1"])).
Proof.
  assert (peerIds_unique
            (run init [Mounted; PeerConnection (Peer.mkDataConnection "B2") "id-1"])) as H.
  { vm_compute. apply NoDup_singleton. }
  split; [exact H|].
  exact (C2_uniqueness_kept_iff_no_repeated_setup _ _ H).
Defined.

(** ** Outbound connection establishment *)

(** C3, as the code has it. When the [Peer] exists and the target is
    non-empty and differs from the local identifier, [connect] asks the
    transport for a connection and, in the same call, registers the
    handle, appends the new conversation and activates it: it does not
    wait for the handle's [open] event, which has no listener and
    changes nothing when it comes. *)
Theorem C3_connect_sets_up_at_once (u : string) (s : State) (pr : Peer.t) :
  peer s = Some pr →
  remotePeerId s ≠ "" →
  remotePeerId s ≠ peerId s →
  calls (connect u s) = calls s ++ [Peer.Connect (remotePeerId s)] ∧
  connections (connect u s) !! remotePeerId s
    = Some (Peer.mkDataConnection (remotePeerId s)) ∧
  conversations (connect u s)
    = conversations s ++
        [Conversation.mk u
           ("Chat with " +:+ substring0 6 (remotePeerId s) +:+ "...")
           (remotePeerId s) []] ∧
  activeConversationId (connect u s) = Some u ∧
  ∀ conn, step (connect u s) (ConnOpen conn) = connect u s.
Proof.
  intros Hp Hne Hself. unfold connect. rewrite Hp.
  rewrite (truthy_nonempty (remotePeerId s)) by done.
  rewrite decide_False by done. simpl.
  split_and!; try done. apply lookup_insert_eq.
Qed.

(** C3 as stated fails: right after the [connect] call, with no [open]
    event of any handle delivered, the conversation is there and active. *)
Lemma C3_counterexample :
  let tr := [Mounted; PeerOpen "A1"; InputRemotePeerId "B2"; CallConnect "id-1"] in
  (∀ conn, ConnOpen conn ∉ tr) ∧
  conversations (run init tr)
    = [Conversation.mk "id-1" "Chat with B2..." "B2" []] ∧
  activeConversationId (run init tr) = Some "id-1".
Proof.
  split_and!; [|by vm_compute..].
  intros conn Hin. repeat (apply elem_of_cons in Hin as [?|Hin]; [done|]).
  by apply not_elem_of_nil in Hin.
Qed.

Lemma C3_witness :
  let s := run init [Mounted; PeerOpen "A1"; InputRemotePeerId "B2"] in
  conversations (connect "id-1" s)
    = [Conversation.mk "id-1" "Chat with B2..." "B2" []] ∧
  activeConversationId (connect "id-1" s) = Some "id-1".
Proof.
  intros s.
  destruct (C3_connect_sets_up_at_once "id-1" s Peer.New) as (_ & _ & Hc & Ha & _).
  - reflexivity.
  - vm_compute. discriminate.
  - vm_compute. discriminate.
  - split; [exact Hc | exact Ha].
Defined.

(** ** Sending *)






(** ** Inbound data *)



(** ** Deletion *)

(** C6. When the conversation with the given id exists (the record [c]
    that the id denotes, the first with that id) and is the active one,
    [deleteConversation] removes exactly that record, and afterwards
    [activeConversationId] is the id of the first remaining conversation,
    or null when none remains. *)
Theorem C6_delete_active_falls_back_to_first
    (v : string) (s : State) (l1 l2 : list Conversation.t) (c : Conversation.t) :
  conversations s = l1 ++ c :: l2 →
  Conversation.id c = v →
  v ∉ (Conversation.id <$> l1) →
  activeConversationId s = Some v →
  conversations (deleteConversation v s) = l1 ++ l2 ∧
  activeConversationId (deleteConversation v s)
    = Conversation.id <$> head (l1 ++ l2) ∧
  (l1 ++ l2 = [] → activeConversationId (deleteConversation v s) = None).
Proof.
  intros Hl Hc Hl1 Hact.
  assert (find_id v (conversations s) = Some (length l1, c)) as Hfind.
  { unfold find_id. rewrite Hl. apply list_find_middle; [|done].
    apply Forall_forall. intros y Hy Hpy. apply Hl1.
    apply list_elem_of_fmap. eauto. }
  unfold deleteConversation. rewrite Hfind. simpl.
  rewrite decide_True by done. simpl.
  rewrite Hl, delete_middle.
  split_and!; [done| |intros ->; done].
  by destruct (l1 ++ l2).
Qed.

Lemma C6_witness :
  let s := run init [Mounted;
                     PeerConnection (Peer.mkDataConnection "B2") "id-1";
                     PeerConnection (Peer.mkDataConnection "C3") "id-2";
                     PeerConnection (Peer.mkDataConnection "D4") "id-3"] in
  conversations (deleteConversation "id-3" s)
    = [Conversation.mk "id-1" "Chat with B2..." "B2" [];
       Conversation.mk "id-2" "Chat with C3..." "C3" []] ∧
  activeConversationId (deleteConversation "id-3" s) = Some "id-1".
Proof.
  intros s.
  destruct (C6_delete_active_falls_back_to_first "id-3" s
              [Conversation.mk "id-1" "Chat with B2..." "B2" [];
               Conversation.mk "id-2" "Chat with C3..." "C3" []]
              []
              (Conversation.mk "id-3" "Chat with D4..." "D4" []))
    as (Hconv & Hact & _).
  - vm_compute. reflexivity.
  - reflexivity.
  - vm_compute. intros Hin.
    repeat (apply elem_of_cons in Hin as [Hin|Hin]; [discriminate Hin|]).
    by apply not_elem_of_nil in Hin.
  - vm_compute. reflexivity.
  - split; [exact Hconv | exact Hact].
Defined.

(** C10. [deleteConversation] leaves the connection registry as it was
    and issues no call on the transport: the handle stored under the
    [peerId] of the deleted conversation stays registered. *)
Theorem C10_delete_keeps_connections (v : string) (s : State) :
  connections (deleteConversation v s) = connections s ∧
  calls (deleteConversation v s) = calls s ∧
  ∀ i c, find_id v (conversations s) = Some (i, c) →
         connections (deleteConversation v s) !! Conversation.peerId c
         = connections s !! Conversation.peerId c.
Proof.
  assert (connections (deleteConversation v s) = connections s) as Hconn.
  { unfold deleteConversation. destruct (find_id _ _) as [[i c]|]; [|done].
    simpl. by case_decide. }
  split_and!; [done| |intros i c _; by rewrite Hconn].
  unfold deleteConversation. destruct (find_id _ _) as [[i c]|]; [|done].
  simpl. by case_decide.
Qed.

Lemma C10_witness :
  let s := run init [Mounted; PeerConnection (Peer.mkDataConnection "B2") "id-1"] in
  conversations (deleteConversation "id-1" s) = [] ∧
  connections (deleteConversation "id-1" s) !! "B2"
    = Some (Peer.mkDataConnection "B2").
Proof.
  intros s. split; [vm_compute; reflexivity|].
  destruct (C10_delete_keeps_connections "id-1" s) as (_ & _ & Hkeep).
  etransitivity.
  - apply (Hkeep 0 (Conversation.mk "id-1" "Chat with B2..." "B2" [])).
    vm_compute. reflexivity.
  - vm_compute. reflexivity.
Defined.

(** ** Self-connection *)

(** The branch of [connect] that rejects the local identifier. *)
Lemma connect_rejects_self (u : string) (s : State) :
  is_Some (peer s) → remotePeerId s ≠ "" → remotePeerId s = peerId s →
  connect u s
  = set_timers (set_errorMessage s "You can't connect to yourself!")
      (timers s ++ [(3000, ClearErrorMessage)]).
Proof.
  intros [pr Hp] Hne Hself. unfold connect. rewrite Hp.
  rewrite (truthy_nonempty (remotePeerId s)) by done.
  by rewrite decide_True.
Qed.

(** With an empty target [connect] does nothing at all. *)
Lemma connect_empty_target (u : string) (s : State) :
  remotePeerId s = "" → connect u s = s.
Proof. intros Hr. unfold connect. rewrite Hr. by destruct (peer s). Qed.

(** The local identifier is assigned by the [open] event of the [Peer],
    so it is empty as long as no [Peer] exists. *)
Lemma step_local_id (s : State) (e : Event) :
  (peer s = None → peerId s = "") →
  peer (step s e) = None → peerId (step s e) = "".
Proof.
  intros Hs.
  assert (∀ s', peer s' = peer s → peerId s' = peerId s →
                peer s' = None → peerId s' = "") as Hsame
    by (intros s' Hp Hid Hnone; rewrite Hid; apply Hs; by rewrite <- Hp).
  destruct e; simpl; try (by apply Hsame).
  - done.
  - destruct (peer s) eqn:Hp; [simpl; congruence | by apply Hsame].
  - destruct (peer s) eqn:Hp; [simpl; congruence | by apply Hsame].
  - unfold onData. destruct (find_peerId _ _) as [[i c]|]; by apply Hsame.
  - destruct (timers s !! n) as [[d []]|]; by apply Hsame.
  - destruct (conversations s !! n); by apply Hsame.
  - unfold connect. destruct (peer s) eqn:Hp; [|by apply Hsame].
    destruct (truthy _); [|by apply Hsame].
    case_decide; simpl; congruence.
  - destruct (sendMessage s) as [s'|] eqn:Hsend; [|by apply Hsame].
    unfold sendMessage in Hsend.
    destruct (activeConversationId s) as [a|]; [|simplify_eq; by apply Hsame].
    destruct (truthy a); [|simplify_eq; by apply Hsame].
    destruct (activeConversation s) as [[i c]|]; [|done].
    destruct (registry_get _ _);
      [|destruct (truthy (message s)); simplify_eq; by apply Hsame
       |simplify_eq; by apply Hsame].
    destruct (truthy (message s)); simplify_eq; by apply Hsame.
  - unfold deleteConversation. destruct (find_id _ _) as [[i c]|];
      [|by apply Hsame].
    simpl. case_decide; by apply Hsame.
  - unfold renameConversation. destruct (find_id _ _) as [[i c]|];
      by apply Hsame.
Qed.

Lemma run_local_id (tr : list Event) (s : State) :
  (peer s = None → peerId s = "") →
  peer (run s tr) = None → peerId (run s tr) = "".
Proof.
  revert s. induction tr as [|e tr IH]; intros s Hs; [done|].
  apply IH. by apply step_local_id.
Qed.

(** C8. In every state reached from the initial one, when the entered
    remote identifier (a non-empty input) equals the local identifier,
    [connect] sets the error message, which the template shows (the
    Connect button and the message are both part of the connect form,
    so the form is shown when the action is taken), and schedules a
    3000 ms timer whose callback clears it; it initiates no transport
    connection and creates no conversation: the transport log, the
    registry, [conversations] and [activeConversationId] are
    unchanged. *)
Theorem C8_self_connection_shows_error
    (tr : list Event) (u : string) (s : State) :
  s = run init tr →
  remotePeerId s ≠ "" →
  remotePeerId s = peerId s →
  errorMessage (connect u s) = "You can't connect to yourself!" ∧
  (showConnectForm s = true → showErrorMessage (connect u s) = true) ∧
  timers (connect u s) = timers s ++ [(3000, ClearErrorMessage)] ∧
  errorMessage (step (connect u s) (TimerFired (length (timers s)))) = "" ∧
  showErrorMessage (step (connect u s) (TimerFired (length (timers s)))) = false ∧
  calls (connect u s) = calls s ∧
  connections (connect u s) = connections s ∧
  conversations (connect u s) = conversations s ∧
  activeConversationId (connect u s) = activeConversationId s.
Proof.
  intros -> Hne Hself.
  assert (is_Some (peer (run init tr))) as Hpeer.
  { destruct (peer (run init tr)) eqn:Hp; [eauto|].
    pose proof (run_local_id tr init (λ _, eq_refl) Hp) as Hid.
    congruence. }
  rewrite (connect_rejects_self u _ Hpeer Hne Hself). simpl.
  rewrite list_lookup_middle by done. simpl.
  unfold showErrorMessage. simpl.
  split_and!; try done.
  - intros Hform. rewrite andb_true_r. exact Hform.
  - apply andb_false_r.
Qed.

Lemma C8_witness :
  let s := run init [Mounted; PeerOpen "A1"; InputRemotePeerId "A1"] in
  errorMessage (connect "id-1" s) = "You can't connect to yourself!" ∧
  showErrorMessage (connect "id-1" s) = true ∧
  conversations (connect "id-1" s) = [] ∧
  calls (connect "id-1" s) = [].
Proof.
  intros s.
  destruct (C8_self_connection_shows_error
              [Mounted; PeerOpen "A1"; InputRemotePeerId "A1"] "id-1" s)
    as (Herr & Hshow & _ & _ & _ & Hcalls & _ & Hconv & _).
  - reflexivity.
  - vm_compute. discriminate.
  - vm_compute. reflexivity.
  - split_and!; [exact Herr | apply Hshow; reflexivity | exact Hconv | exact Hcalls].
Defined.

(** ** Inbound connection establishment *)

Lemma substring0_length (n : nat) (v : string) :
  String.length (substring0 n v) = n `min` String.length v.
Proof.
  unfold substring0. revert v.
  induction n as [|n IH]; intros [|ch v]; simpl; [done..|]. by rewrite IH.
Qed.

Lemma substring0_prefix (n : nat) (v : string) :
  ∃ rest, v = substring0 n v +:+ rest.
Proof.
  unfold substring0. revert v.
  induction n as [|n IH]; intros [|ch v]; simpl; [by eexists..|].
  destruct (IH v) as [rest Hrest]. exists rest.
  change (String ch v = String ch (String.substring 0 n v +:+ rest)).
  by f_equal.
Qed.

(** C9. An inbound connection event from peer [P] (delivered to the
    listener installed at mount) appends exactly one conversation, with
    [peerId] [P] and no messages, makes it the active one in the same
    step, and titles it ["Chat with "], then the first 6 characters of
    [P] (all of [P] when it is shorter), then ["..."]. *)
Theorem C9_inbound_connection_creates_and_activates
    (conn : Peer.DataConnection) (u : string) (s : State) (pr : Peer.t) :
  peer s = Some pr →
  let s' := step s (PeerConnection conn u) in
  conversations s'
    = conversations s ++
        [Conversation.mk u
           ("Chat with " +:+ substring0 6 (Peer.peer conn) +:+ "...")
           (Peer.peer conn) []] ∧
  activeConversationId s' = Some u ∧
  String.length (substring0 6 (Peer.peer conn))
    = 6 `min` String.length (Peer.peer conn) ∧
  ∃ rest, Peer.peer conn = substring0 6 (Peer.peer conn) +:+ rest.
Proof.
  intros Hp. simpl. rewrite Hp. simpl.
  split_and!; [done | done | apply substring0_length | apply substring0_prefix].
Qed.

Lemma C9_witness :
  let s := run init [Mounted; PeerOpen "A1"] in
  conversations (step s (PeerConnection (Peer.mkDataConnection "remote-peer-42") "id-1"))
    = [Conversation.mk "id-1" "Chat with remote..." "remote-peer-42" []] ∧
  activeConversationId
    (step s (PeerConnection (Peer.mkDataConnection "remote-peer-42") "id-1"))
    = Some "id-1".
Proof.
  intros s.
  destruct (C9_inbound_connection_creates_and_activates
              (Peer.mkDataConnection "remote-peer-42") "id-1" s Peer.New)
    as (Hconv & Hact & _).
  - reflexivity.
  - split; [exact Hconv | exact Hact].
Defined.

(** ** Reachable states *)

(** Three facts about the states the application can be in. They place
    the statements above: a listed conversation always has its handle
    registered (handles are never removed), so a [data] event can only
    reach a listed conversation through a connection that went through
    [setupConnection]; [sendMessage] never throws; and the active id is
    a truthy string as long as [uuidv4()] returns non-empty tokens. *)

Lemma elem_of_snoc {A} (l : list A) (x y : A) : x ∈ l ++ [y] → x ∈ l ∨ x = y.
Proof. intros [?|?%list_elem_of_singleton]%elem_of_app; auto. Qed.

Lemma deleteConversation_fields v s :
  connections (deleteConversation v s) = connections s ∧
  conversations (deleteConversation v s) `sublist_of` conversations s.
Proof.
  unfold deleteConversation.
  destruct (find_id _ _) as [[i c]|]; [|done].
  simpl. case_decide; simpl; auto using sublist_delete.
Qed.

Lemma step_peerIds_connections s e p :
  p ∈ peerIds (step s e) →
  p ∈ peerIds s ∧ connections (step s e) !! p = connections s !! p
  ∨ is_Some (connections (step s e) !! p).
Proof.
  destruct e; simpl; try (by left).
  - destruct (peer s); by left.
  - destruct (peer s); [|by left]. unfold peerIds; simpl.
    rewrite fmap_app. intros Hp%elem_of_snoc.
    destruct (decide (Peer.peer conn = p)) as [->|Hne].
    + right. rewrite lookup_insert_eq. eauto.
    + left. rewrite lookup_insert_ne by done.
      destruct Hp as [?|Hp]; [done | simpl in Hp; congruence].
  - rewrite onData_peerIds. intros Hp. left. split; [done|].
    unfold onData. by destruct (find_peerId _ _) as [[i c]|].
  - destruct (timers s !! n) as [[d []]|]; by left.
  - unfold peerIds; simpl. rewrite peerIds_alter_title. by left.
  - destruct (conversations s !! n); by left.
  - unfold connect. destruct (peer s); [|by left].
    destruct (truthy _); [|by left]. case_decide; [by left|].
    unfold peerIds; simpl.
    rewrite fmap_app. intros Hp%elem_of_snoc.
    destruct (decide (remotePeerId s = p)) as [->|Hne].
    + right. rewrite lookup_insert_eq. eauto.
    + left. rewrite lookup_insert_ne by done.
      destruct Hp as [?|Hp]; [done | simpl in Hp; congruence].
  - destruct (sendMessage s) as [s'|] eqn:Hsend; [|by left].
    rewrite (sendMessage_peerIds _ _ Hsend). intros Hp. left. split; [done|].
    unfold sendMessage in Hsend.
    destruct (activeConversationId s) as [a|]; [|by simplify_eq].
    destruct (truthy a); [|by simplify_eq].
    destruct (activeConversation s) as [[i c]|]; [|done].
    destruct (registry_get _ _);
      [|destruct (truthy (message s)); by simplify_eq|by simplify_eq].
    destruct (truthy (message s)); by simplify_eq.
  - destruct (deleteConversation_fields v s) as (Hconn & Hsub).
    rewrite Hconn. intros Hp. left. split; [|done].
    eapply elem_of_sublist; [exact Hp|]. by apply fmap_sublist.
  - rewrite renameConversation_peerIds. intros Hp. left. split; [done|].
    unfold renameConversation. by destruct (find_id _ _) as [[i c]|].
Qed.

(** Every listed conversation has a handle registered under its [peerId]. *)
Lemma reachable_handles_registered (tr : list Event) (c : Conversation.t) :
  c ∈ conversations (run init tr) →
  is_Some (connections (run init tr) !! Conversation.peerId c).
Proof.
  intros Hc.
  assert (Conversation.peerId c ∈ peerIds (run init tr)) as Hp
    by (by apply list_elem_of_fmap_2).
  clear Hc. revert Hp. generalize (Conversation.peerId c) as p. clear c.
  induction tr as [|e tr IH] using rev_ind; intros p Hp.
  - by apply not_elem_of_nil in Hp.
  - unfold run in *. rewrite foldl_snoc in Hp |- *.
    apply step_peerIds_connections in Hp as [[Hp ->]|?]; auto.
Qed.

(** [sendMessage] does not throw in a reachable state. *)
Lemma reachable_sendMessage_returns (tr : list Event) :
  ∃ s', sendMessage (run init tr) = Ok s'.
Proof.
  pose proof (run_active_valid tr init I) as Hvalid.
  unfold sendMessage, activeConversation, active_valid, ids, find_id in *.
  destruct (activeConversationId (run init tr)) as [a|]; [|eauto].
  destruct (truthy a); [|eauto].
  apply list_elem_of_fmap in Hvalid as (c & -> & Hc).
  destruct (list_find_elem_of (λ c0, Conversation.id c0 = Conversation.id c)
              _ c Hc eq_refl) as [[i c'] Hfind].
  rewrite Hfind. apply list_find_Some in Hfind as (Hi & _ & _).
  destruct (reachable_handles_registered tr c') as [conn Hconn];
    [by eapply list_elem_of_lookup_2|].
  rewrite (registry_get_own _ _ _ Hconn).
  destruct (truthy _); eauto.
Qed.

Lemma step_ids s e v :
  v ∈ ids (step s e) →
  v ∈ ids s ∨ match e with
              | PeerConnection _ u | CallConnect u => v = u
              | _ => False
              end.
Proof.
  unfold ids. destruct e; simpl; try (by left).
  - destruct (peer s); by left.
  - destruct (peer s); [|by left]. simpl. rewrite fmap_app.
    intros [?|?]%elem_of_snoc; auto.
  - unfold onData. destruct (find_peerId _ _) as [[i c]|]; [|by left].
    simpl. rewrite ids_alter_push. by left.
  - destruct (timers s !! n) as [[d []]|]; by left.
  - rewrite ids_alter_title. by left.
  - destruct (conversations s !! n); by left.
  - unfold connect. destruct (peer s); [|by left].
    destruct (truthy _); [|by left]. case_decide; [by left|].
    simpl. rewrite fmap_app.
    intros [?|?]%elem_of_snoc; auto.
  - destruct (sendMessage s) as [s'|] eqn:Hsend; [|by left].
    unfold sendMessage in Hsend.
    destruct (activeConversationId s) as [a|]; [|simplify_eq; by left].
    destruct (truthy a); [|simplify_eq; by left].
    destruct (activeConversation s) as [[i c]|]; [|done].
    destruct (registry_get _ _);
      [|destruct (truthy (message s)); simplify_eq; by left|simplify_eq; by left].
    destruct (truthy (message s)); simplify_eq; [|by left].
    simpl. rewrite ids_alter_push. by left.
  - destruct (deleteConversation_fields v0 s) as (_ & Hsub).
    intros Hv. left.
    eapply elem_of_sublist; [exact Hv|]. by apply fmap_sublist.
  - unfold renameConversation. destruct (find_id _ _) as [[i c]|]; [|by left].
    simpl. rewrite ids_alter_title. by left.
Qed.

(** With non-empty tokens, the active id is a truthy string. *)
Lemma reachable_active_truthy (tr : list Event) (a : string) :
  Forall token_truthy tr →
  activeConversationId (run init tr) = Some a →
  truthy a = true.
Proof.
  intros Htr Ha.
  pose proof (run_active_valid tr init I) as Hvalid.
  unfold active_valid in Hvalid. rewrite Ha in Hvalid. clear Ha.
  revert a Hvalid. induction tr as [|e tr IH] using rev_ind; intros a Hin.
  - by apply not_elem_of_nil in Hin.
  - apply Forall_app in Htr as [Htr He]. rewrite Forall_singleton in He.
    unfold run in *. rewrite foldl_snoc in Hin.
    apply step_ids in Hin as [?|Hin]; [by apply IH|].
    destruct e; try done; simpl in *; by subst.
Qed.

(** The scenario of the specification: local id "A1", connect to "B2",
    send "Hello", receive "Hi" from "B2". *)
Example scenario_connect_send_receive :
  conversations
    (run init [Mounted; PeerOpen "A1"; InputRemotePeerId "B2";
               CallConnect "id-1"; InputMessage "Hello"; CallSendMessage;
               ConnData (Peer.mkDataConnection "B2") "Hi"])
  = [Conversation.mk "id-1" "Chat with B2..." "B2"
       [mkMessage "You" "Hello"; mkMessage "Remote" "Hi"]].
Proof. by vm_compute. Qed.

(** ** Renaming and deleting by id *)

Lemma find_id_not_in (v : string) (l : list Conversation.t) :
  v ∉ (Conversation.id <$> l) → find_id v l = None.
Proof.
  intros Hv. apply list_find_None, Forall_forall. intros c Hc Hid.
  apply Hv, list_elem_of_fmap. eauto.
Qed.

Lemma find_id_first (v : string) (l1 l2 : list Conversation.t) (c : Conversation.t) :
  Conversation.id c = v → v ∉ (Conversation.id <$> l1) →
  find_id v (l1 ++ c :: l2) = Some (length l1, c).
Proof.
  intros Hc Hl1. apply list_find_middle; [|done].
  apply Forall_forall. intros y Hy Hid. apply Hl1, list_elem_of_fmap. eauto.
Qed.

Lemma find_id_Some_split (v : string) (l : list Conversation.t) i c :
  find_id v l = Some (i, c) →
  ∃ l1 l2, l = l1 ++ c :: l2 ∧ length l1 = i ∧ Conversation.id c = v ∧
           v ∉ (Conversation.id <$> l1).
Proof.
  intros (l1 & l2 & -> & Hlen & Hc & Hl1)%list_find_split.
  exists l1, l2. split_and!; [done..|].
  intros (y & -> & Hy)%list_elem_of_fmap.
  by eapply Forall_forall in Hl1.
Qed.

(** X1. [renameConversation] rewrites the title of the conversation the
    id denotes (the first with that id) and nothing else in the state:
    the record keeps its id, peerId and messages, every other record and
    every other reference is untouched, any title is accepted (the
    empty one too), and an id that is not listed leaves the state as it
    was. *)
Theorem X1_rename_changes_one_title (v t : string) (s : State) :
  (v ∉ ids s → renameConversation v t s = s) ∧
  (∀ l1 c l2,
     conversations s = l1 ++ c :: l2 →
     Conversation.id c = v →
     v ∉ (Conversation.id <$> l1) →
     renameConversation v t s
     = set_conversations s
         (l1 ++ Conversation.mk v t (Conversation.peerId c)
                  (Conversation.messages c) :: l2)).
Proof.
  unfold renameConversation. split.
  - intros Hv. by rewrite find_id_not_in.
  - intros l1 c l2 Hl Hc Hl1. rewrite Hl.
    rewrite (find_id_first v l1 l2 c) by done.
    rewrite alter_middle. unfold Conversation.set_title. by rewrite Hc.
Qed.

Lemma X1_witness :
  let s := run init [Mounted;
                     PeerConnection (Peer.mkDataConnection "B2") "id-1";
                     PeerConnection (Peer.mkDataConnection "C3") "id-2"] in
  renameConversation "id-9" "x" s = s ∧
  conversations (renameConversation "id-2" "" s)
    = [Conversation.mk "id-1" "Chat with B2..." "B2" [];
       Conversation.mk "id-2" "" "C3" []].
Proof.
  intros s.
  split.
  - apply (X1_rename_changes_one_title "id-9" "x" s).
    vm_compute. intros Hin.
    repeat (apply elem_of_cons in Hin as [Hin|Hin]; [discriminate Hin|]).
    by apply not_elem_of_nil in Hin.
  - destruct (X1_rename_changes_one_title "id-2" "" s) as [_ Hren].
    rewrite (Hren [Conversation.mk "id-1" "Chat with B2..." "B2" []]
                  (Conversation.mk "id-2" "Chat with C3..." "C3" []) []).
    + reflexivity.
    + vm_compute. reflexivity.
    + reflexivity.
    + vm_compute. intros Hin.
      repeat (apply elem_of_cons in Hin as [Hin|Hin]; [discriminate Hin|]).
      by apply not_elem_of_nil in Hin.
Defined.

(** X2. [deleteConversation] with an id that is not listed changes
    nothing; with the id of a listed conversation that is not the active
    one it removes that record (the first with the id) and leaves
    [activeConversationId] and every other reference as they were. *)
Theorem X2_delete_inactive_keeps_active (v : string) (s : State) :
  (v ∉ ids s → deleteConversation v s = s) ∧
  (∀ l1 c l2,
     conversations s = l1 ++ c :: l2 →
     Conversation.id c = v →
     v ∉ (Conversation.id <$> l1) →
     activeConversationId s ≠ Some v →
     deleteConversation v s = set_conversations s (l1 ++ l2)).
Proof.
  unfold deleteConversation. split.
  - intros Hv. by rewrite find_id_not_in.
  - intros l1 c l2 Hl Hc Hl1 Hact. rewrite Hl.
    rewrite (find_id_first v l1 l2 c) by done. simpl.
    rewrite decide_False by done. by rewrite delete_middle.
Qed.

Lemma X2_witness :
  let s := run init [Mounted;
                     PeerConnection (Peer.mkDataConnection "B2") "id-1";
                     PeerConnection (Peer.mkDataConnection "C3") "id-2"] in
  deleteConversation "id-9" s = s ∧
  conversations (deleteConversation "id-1" s)
    = [Conversation.mk "id-2" "Chat with C3..." "C3" []] ∧
  activeConversationId (deleteConversation "id-1" s) = Some "id-2".
Proof.
  intros s.
  split.
  - apply (X2_delete_inactive_keeps_active "id-9" s).
    vm_compute. intros Hin.
    repeat (apply elem_of_cons in Hin as [Hin|Hin]; [discriminate Hin|]).
    by apply not_elem_of_nil in Hin.
  - destruct (X2_delete_inactive_keeps_active "id-1" s) as [_ Hdel].
    rewrite (Hdel [] (Conversation.mk "id-1" "Chat with B2..." "B2" [])
                  [Conversation.mk "id-2" "Chat with C3..." "C3" []]).
    + split; reflexivity.
    + vm_compute. reflexivity.
    + reflexivity.
    + apply not_elem_of_nil.
    + vm_compute. discriminate.
Defined.

(** X3. When the listed ids are pairwise distinct, [deleteConversation]
    leaves no conversation with the given id, so deleting the same id
    again changes nothing. *)
Theorem X3_delete_removes_the_id (v : string) (s : State) :
  NoDup (ids s) →
  (v ∉ ids (deleteConversation v s)) ∧
  deleteConversation v (deleteConversation v s) = deleteConversation v s.
Proof.
  intros Hnd.
  assert (v ∉ ids (deleteConversation v s)) as Hgone.
  { unfold deleteConversation.
    destruct (find_id v (conversations s)) as [[i c]|] eqn:Hfind.
    - apply find_id_Some_split in Hfind as (l1 & l2 & Hl & Hlen & Hc & Hl1).
      assert (ids (set_conversations s (delete i (conversations s)))
              = (Conversation.id <$> l1) ++ (Conversation.id <$> l2)) as Hids.
      { unfold ids; simpl. by rewrite Hl, <- Hlen, delete_middle, fmap_app. }
      unfold ids in Hnd. rewrite Hl, fmap_app, fmap_cons, Hc in Hnd.
      apply NoDup_app in Hnd as (_ & Hdisj & Hnd2).
      apply NoDup_cons in Hnd2 as [Hl2 _].
      assert (v ∉ (Conversation.id <$> l1) ++ (Conversation.id <$> l2)) as Hnot.
      { intros [?|?]%elem_of_app; done. }
      simpl. case_decide; unfold ids in *; simpl in *; by rewrite Hids.
    - apply list_find_None in Hfind. unfold ids.
      intros (c & -> & Hc)%list_elem_of_fmap.
      by eapply Forall_forall in Hfind. }
  split; [done|].
  unfold deleteConversation at 1. by rewrite find_id_not_in.
Qed.

Lemma X3_witness :
  let s := run init [Mounted;
                     PeerConnection (Peer.mkDataConnection "B2") "id-1";
                     PeerConnection (Peer.mkDataConnection "C3") "id-2"] in
  "id-1" ∉ ids (deleteConversation "id-1" s).
Proof.
  intros s. apply (X3_delete_removes_the_id "id-1" s).
  vm_compute. apply NoDup_cons. split.
  - intros Hin.
    repeat (apply elem_of_cons in Hin as [Hin|Hin]; [discriminate Hin|]).
    by apply not_elem_of_nil in Hin.
  - apply NoDup_singleton.
Defined.

(** ** Distinct tokens give distinct ids *)

(** A step removes ids, keeps them, or appends the token of its event. *)
Lemma step_ids_shape s e :
  ids (step s e) `sublist_of` ids s ∨
  ∃ u, token e = [u] ∧ ids (step s e) = ids s ++ [u].
Proof.
  unfold ids. destruct e; simpl; try (by left).
  - destruct (peer s); by left.
  - destruct (peer s); [|by left]. right. exists u. simpl.
    by rewrite fmap_app.
  - left. unfold onData. destruct (find_peerId _ _) as [[i c]|]; [|done].
    simpl. by rewrite ids_alter_push.
  - left. by destruct (timers s !! n) as [[d []]|].
  - left. by rewrite ids_alter_title.
  - left. by destruct (conversations s !! n).
  - unfold connect. destruct (peer s); [|by left].
    destruct (truthy _); [|by left]. case_decide; [by left|].
    right. exists u. simpl. by rewrite fmap_app.
  - left. destruct (sendMessage s) as [s'|] eqn:Hsend; [|done].
    unfold sendMessage in Hsend.
    destruct (activeConversationId s) as [a|]; [|by simplify_eq].
    destruct (truthy a); [|by simplify_eq].
    destruct (activeConversation s) as [[i c]|]; [|done].
    destruct (registry_get _ _);
      [|destruct (truthy (message s)); by simplify_eq|by simplify_eq].
    destruct (truthy (message s)); simplify_eq; [|done].
    simpl. by rewrite ids_alter_push.
  - left. destruct (deleteConversation_fields v s) as (_ & Hsub).
    by apply fmap_sublist.
  - left. unfold renameConversation.
    destruct (find_id _ _) as [[i c]|]; [|done].
    simpl. by rewrite ids_alter_title.
Qed.

Lemma run_ids_from_tokens (tr : list Event) :
  NoDup (tokens tr) →
  NoDup (ids (run init tr)) ∧ ∀ v, v ∈ ids (run init tr) → v ∈ tokens tr.
Proof.
  induction tr as [|e tr IH] using rev_ind; intros Hnd.
  - split; [apply NoDup_nil_2|]. intros v Hv. by apply not_elem_of_nil in Hv.
  - unfold tokens in *. rewrite bind_app in Hnd |- *.
    apply NoDup_app in Hnd as (Hnd & Hdisj & _).
    destruct (IH Hnd) as [IHnd IHsub]. clear IH.
    unfold run in *. rewrite foldl_snoc. simpl. rewrite app_nil_r.
    destruct (step_ids_shape (foldl step init tr) e) as [Hsub|(u & Hu & Hids)].
    + split; [by eapply sublist_NoDup|].
      intros v Hv. apply elem_of_app. left. apply IHsub.
      by eapply elem_of_sublist.
    + rewrite Hids, Hu. split.
      * apply NoDup_app. split_and!; [done | | apply NoDup_singleton].
        intros v Hv ->%list_elem_of_singleton.
        apply (Hdisj u (IHsub u Hv)). simpl. rewrite app_nil_r, Hu.
        by apply list_elem_of_singleton.
      * intros v [Hv|Hv]%elem_of_app; apply elem_of_app; auto.
Qed.

(** X4. When the tokens [uuidv4()] returns along a run are pairwise
    distinct, the ids of the listed conversations are pairwise distinct
    in the state the run ends in: an id is only ever given by
    [setupConnection], and no operation copies a record. *)
Theorem X4_distinct_tokens_distinct_ids (tr : list Event) :
  NoDup (tokens tr) → NoDup (ids (run init tr)).
Proof. intros Hnd. by apply run_ids_from_tokens. Qed.

Lemma X4_witness :
  NoDup (ids (run init [Mounted; PeerOpen "A1";
                        PeerConnection (Peer.mkDataConnection "B2") "id-1";
                        InputRemotePeerId "B2"; CallConnect "id-2";
                        CallDeleteConversation "id-1"])).
Proof.
  apply X4_distinct_tokens_distinct_ids.
  vm_compute. apply NoDup_cons. split.
  - intros Hin.
    repeat (apply elem_of_cons in Hin as [Hin|Hin]; [discriminate Hin|]).
    by apply not_elem_of_nil in Hin.
  - apply NoDup_singleton.
Defined.

(** ** What the template shows *)

Lemma filter_by_id_absent (a : string) (l : list Conversation.t) :
  a ∉ (Conversation.id <$> l) →
  filter (λ c, Conversation.id c = a) l = [].
Proof.
  induction l as [|c l IH]; [done|]. rewrite fmap_cons, not_elem_of_cons.
  intros [Hc Hl]. rewrite filter_cons_False by done. auto.
Qed.

Lemma filter_by_id_unique (a : string) (l : list Conversation.t) :
  NoDup (Conversation.id <$> l) →
  a ∈ (Conversation.id <$> l) →
  length (filter (λ c, Conversation.id c = a) l) = 1.
Proof.
  induction l as [|c l IH]; [by intros _ ?%not_elem_of_nil|].
  rewrite fmap_cons, NoDup_cons. intros [Hc Hnd] Hin.
  destruct (decide (Conversation.id c = a)) as [Heq|Hne].
  - rewrite filter_cons_True by done. rewrite <- Heq in *.
    by rewrite filter_by_id_absent.
  - rewrite filter_cons_False by done. apply IH; [done|].
    apply elem_of_cons in Hin as [?|?]; [congruence|done].
Qed.

(** X5. In every state reached with pairwise distinct, non-empty tokens
    the page shows either the connect form or the message input of
    exactly one conversation box, never both and never neither: when no
    conversation is active the form is shown and no box has the input;
    otherwise the form is hidden and exactly one listed conversation
    passes the test [activeConversationId === conv.id]. *)
Theorem X5_connect_form_or_one_message_input (tr : list Event) :
  NoDup (tokens tr) →
  Forall token_truthy tr →
  let s := run init tr in
  if showConnectForm s
  then ∀ c, c ∈ conversations s → showMessageInput s c = false
  else length (filter (λ c, showMessageInput s c = true) (conversations s)) = 1.
Proof.
  intros Hnd Htruthy s.
  pose proof (proj1 (run_ids_from_tokens tr Hnd)) as Hids.
  pose proof (run_active_valid tr init I) as Hvalid.
  fold s in Hids, Hvalid.
  unfold showConnectForm, showMessageInput, active_valid in *.
  destruct (activeConversationId s) as [a|] eqn:Ha.
  - rewrite (reachable_active_truthy tr a Htruthy Ha). simpl.
    rewrite <- (filter_by_id_unique a (conversations s) Hids Hvalid).
    f_equal. apply list_filter_iff. intros c.
    rewrite bool_decide_eq_true. split; congruence.
  - simpl. by intros c _.
Qed.

Lemma X5_witness :
  let s := run init [Mounted; PeerOpen "A1";
                     PeerConnection (Peer.mkDataConnection "B2") "id-1";
                     PeerConnection (Peer.mkDataConnection "C3") "id-2"] in
  showConnectForm s = false ∧
  length (filter (λ c, showMessageInput s c = true) (conversations s)) = 1.
Proof.
  intros s. split; [reflexivity|].
  assert (NoDup (tokens [Mounted; PeerOpen "A1";
                         PeerConnection (Peer.mkDataConnection "B2") "id-1";
                         PeerConnection (Peer.mkDataConnection "C3") "id-2"])) as Hnd.
  { vm_compute. apply NoDup_cons. split; [|apply NoDup_singleton].
    intros Hin.
    repeat (apply elem_of_cons in Hin as [Hin|Hin]; [discriminate Hin|]).
    by apply not_elem_of_nil in Hin. }
  assert (Forall token_truthy
            [Mounted; PeerOpen "A1";
             PeerConnection (Peer.mkDataConnection "B2") "id-1";
             PeerConnection (Peer.mkDataConnection "C3") "id-2"]) as Htr.
  { repeat constructor. }
  exact (X5_connect_form_or_one_message_input _ Hnd Htr).
Defined.

(** ** The connection registry along a run *)

(** A step leaves the registry alone or stores one handle under the
    identifier of its peer. *)
Lemma step_connections_shape s e :
  connections (step s e) = connections s ∨
  ∃ conn, connections (step s e) = <[Peer.peer conn := conn]> (connections s).
Proof.
  destruct e; simpl; try (by left).
  - destruct (peer s); by left.
  - destruct (peer s); [|by left]. right. by exists conn.
  - left. unfold onData. by destruct (find_peerId _ _) as [[i c]|].
  - left. by destruct (timers s !! n) as [[d []]|].
  - left. by destruct (conversations s !! n).
  - unfold connect. destruct (peer s); [|by left].
    destruct (truthy _); [|by left]. case_decide; [by left|].
    right. by eexists (Peer.mkDataConnection _).
  - left. destruct (sendMessage s) as [s'|] eqn:Hsend; [|done].
    unfold sendMessage in Hsend.
    destruct (activeConversationId s) as [a|]; [|by simplify_eq].
    destruct (truthy a); [|by simplify_eq].
    destruct (activeConversation s) as [[i c]|]; [|done].
    destruct (registry_get _ _);
      [|destruct (truthy (message s)); by simplify_eq|by simplify_eq].
    destruct (truthy (message s)); by simplify_eq.
  - left. apply deleteConversation_fields.
  - left. unfold renameConversation. by destruct (find_id _ _) as [[i c]|].
Qed.

Lemma step_registry_keyed s e : registry_keyed s → registry_keyed (step s e).
Proof.
  intros Hs. destruct (step_connections_shape s e) as [Heq|[conn Heq]];
    unfold registry_keyed; rewrite Heq; [done|].
  intros p conn' Hp. destruct (decide (Peer.peer conn = p)) as [<-|Hne].
  - rewrite lookup_insert_eq in Hp. by simplify_eq.
  - rewrite lookup_insert_ne in Hp by done. eauto.
Qed.

Lemma run_registry_keyed tr s : registry_keyed s → registry_keyed (run s tr).
Proof.
  revert s. induction tr as [|e tr IH]; intros s Hs; [done|].
  apply IH. by apply step_registry_keyed.
Qed.

Lemma init_registry_keyed : registry_keyed init.
Proof. intros p conn Hp. unfold init in Hp; simpl in Hp. by rewrite lookup_empty in Hp. Qed.

Lemma reachable_handle_of_peer (tr : list Event) (c : Conversation.t) :
  c ∈ conversations (run init tr) →
  ∃ conn,
    connections (run init tr) !! Conversation.peerId c = Some conn ∧
    Peer.peer conn = Conversation.peerId c.
Proof.
  intros Hc. destruct (reachable_handles_registered tr c Hc) as [conn Hconn].
  exists conn. split; [done|].
  by apply (run_registry_keyed tr init init_registry_keyed).
Qed.

(** X6. In every state reached from the initial one, each listed
    conversation has a handle registered under its [peerId], and that
    handle is a connection to that very peer. *)
Theorem X6_listed_conversation_has_its_handle
    (tr : list Event) (c : Conversation.t) :
  c ∈ conversations (run init tr) →
  ∃ conn,
    connections (run init tr) !! Conversation.peerId c = Some conn ∧
    Peer.peer conn = Conversation.peerId c.
Proof. apply reachable_handle_of_peer. Qed.

Lemma X6_witness :
  ∃ conn,
    connections (run init [Mounted; PeerOpen "A1"; InputRemotePeerId "B2";
                           CallConnect "id-1"]) !! "B2" = Some conn ∧
    Peer.peer conn = "B2".
Proof.
  apply (X6_listed_conversation_has_its_handle
           [Mounted; PeerOpen "A1"; InputRemotePeerId "B2"; CallConnect "id-1"]
           (Conversation.mk "id-1" "Chat with B2..." "B2" [])).
  vm_compute. apply list_elem_of_here.
Defined.

(** X7. A peer identifier that has a handle registered under it has one
    registered under it after every later sequence of events: no
    operation deletes an entry of the registry. Which handle that is is
    not said: a later [setupConnection] for the same peer stores its own
    handle under the identifier, in place of the earlier one. *)
Theorem X7_registered_peer_stays_bound
    (s : State) (tr : list Event) (p : string) :
  is_Some (connections s !! p) →
  is_Some (connections (run s tr) !! p).
Proof.
  revert s. induction tr as [|e tr IH]; intros s Hp; [done|].
  apply IH. destruct (step_connections_shape s e) as [->|[conn ->]]; [done|].
  destruct (decide (Peer.peer conn = p)) as [<-|Hne].
  - rewrite lookup_insert_eq. eauto.
  - by rewrite lookup_insert_ne.
Qed.

Lemma X7_witness :
  is_Some
    (connections
       (run (run init [Mounted; PeerConnection (Peer.mkDataConnection "B2") "id-1"])
            [CallDeleteConversation "id-1"; CallNewConversation;
             PeerConnection (Peer.mkDataConnection "C3") "id-2"])
     !! "B2").
Proof.
  apply X7_registered_peer_stays_bound.
  exists (Peer.mkDataConnection "B2"). vm_compute. reflexivity.
Defined.

(** ** Sending from a reachable state *)



(** X9. The branches of [sendMessage] that send nothing. With no active
    conversation, or with an empty composition buffer and a valid active
    id, it returns the state unchanged. With an active id that is a
    non-empty string but names no listed conversation, reading [.peerId]
    of the null [activeConversation] throws, and the click leaves the
    state as it was. *)
Theorem X9_sendMessage_sends_nothing (s : State) :
  (activeConversationId s = None → sendMessage s = Ok s) ∧
  (message s = "" → active_valid s → sendMessage s = Ok s) ∧
  (∀ a, activeConversationId s = Some a → truthy a = true → a ∉ ids s →
        sendMessage s = Throw TypeError ∧ step s CallSendMessage = s).
Proof.
  split_and!.
  - intros Ha. unfold sendMessage. by rewrite Ha.
  - intros Hmsg Hvalid. unfold sendMessage, activeConversation, active_valid in *.
    destruct (activeConversationId s) as [a|]; [|done].
    destruct (truthy a); [|done].
    apply list_elem_of_fmap in Hvalid as (c & -> & Hc).
    destruct (list_find_elem_of (λ c0, Conversation.id c0 = Conversation.id c)
                _ c Hc eq_refl) as [[i c'] Hfind].
    unfold find_id. rewrite Hfind, Hmsg.
    by destruct (registry_get _ _).
  - intros a Ha Htruthy Hnot.
    assert (sendMessage s = Throw TypeError) as Hthrow.
    { unfold sendMessage, activeConversation. rewrite Ha, Htruthy.
      by rewrite find_id_not_in. }
    split; [done|]. simpl. by rewrite Hthrow.
Qed.

Lemma X9_witness :
  let s := run init [Mounted; PeerOpen "A1";
                     PeerConnection (Peer.mkDataConnection "B2") "id-1"] in
  sendMessage (newConversation s) = Ok (newConversation s) ∧
  sendMessage s = Ok s ∧
  sendMessage (set_activeConversationId s (Some "id-9")) = Throw TypeError.
Proof.
  intros s.
  split_and!.
  - destruct (X9_sendMessage_sends_nothing (newConversation s)) as (Hnone & _ & _).
    apply Hnone. reflexivity.
  - destruct (X9_sendMessage_sends_nothing s) as (_ & Hempty & _).
    apply Hempty.
    + reflexivity.
    + vm_compute. apply list_elem_of_here.
  - destruct (X9_sendMessage_sends_nothing
                (set_activeConversationId s (Some "id-9"))) as (_ & _ & Hthrow).
    apply (Hthrow "id-9").
    + reflexivity.
    + reflexivity.
    + vm_compute. intros Hin.
      repeat (apply elem_of_cons in Hin as [Hin|Hin]; [discriminate Hin|]).
      by apply not_elem_of_nil in Hin.
Defined.

(** ** What is asked of the transport *)

(** One step issues at most one call, and says which. *)
Lemma step_calls_shape s e :
  calls (step s e) = calls s ∨
  (∃ u, e = CallConnect u ∧
        calls (step s e) = calls s ++ [Peer.Connect (remotePeerId s)] ∧
        remotePeerId s ≠ "" ∧ remotePeerId s ≠ peerId s) ∨
  (∃ conn, e = CallSendMessage ∧
           calls (step s e) = calls s ++ [Peer.Send conn (message s)] ∧
           message s ≠ "").
Proof.
  destruct e; simpl; try (by left).
  - destruct (peer s); by left.
  - destruct (peer s); by left.
  - unfold onData. destruct (find_peerId _ _) as [[i c]|]; by left.
  - destruct (timers s !! n) as [[d []]|]; by left.
  - destruct (conversations s !! n); by left.
  - unfold connect. destruct (peer s); [|by left].
    destruct (truthy (remotePeerId s)) eqn:Hr; [|by left].
    case_decide; [by left|]. right. left. exists u.
    split_and!; [done..| |done]. by destruct (remotePeerId s).
  - destruct (sendMessage s) as [s'|] eqn:Hsend; [|by left].
    unfold sendMessage in Hsend.
    destruct (activeConversationId s) as [a|]; [|simplify_eq; by left].
    destruct (truthy a); [|simplify_eq; by left].
    destruct (activeConversation s) as [[i c]|]; [|done].
    destruct (registry_get _ _) as [conn| |];
      [|destruct (truthy (message s)); simplify_eq; by left|simplify_eq; by left].
    destruct (truthy (message s)) eqn:Hm; simplify_eq; [|by left].
    right. right. exists conn. split_and!; [done..|]. by destruct (message s).
  - left. unfold deleteConversation. destruct (find_id _ _) as [[i c]|]; [|done].
    simpl. by case_decide.
  - left. unfold renameConversation. by destruct (find_id _ _) as [[i c]|].
Qed.

(** X10. Along every run from the initial state the component never
    asks the transport for a connection to the empty identifier and
    never sends an empty payload. *)
Theorem X10_no_empty_call (tr : list Event) (c : Peer.Call) :
  c ∈ calls (run init tr) → call_nonempty c.
Proof.
  induction tr as [|e tr IH] using rev_ind.
  - by intros ?%not_elem_of_nil.
  - unfold run in *. rewrite foldl_snoc.
    destruct (step_calls_shape (foldl step init tr) e)
      as [Heq|[(u & _ & Heq & Hne & _)|(conn & _ & Heq & Hne)]];
      rewrite Heq; [done|..].
    + intros [?|Hc]%elem_of_snoc; [auto|by subst].
    + intros [?|Hc]%elem_of_snoc; [auto|by subst].
Qed.

Lemma X10_witness :
  call_nonempty (Peer.Send (Peer.mkDataConnection "B2") "Hello").
Proof.
  apply (X10_no_empty_call
           [Mounted; PeerOpen "A1"; InputRemotePeerId "B2"; CallConnect "id-1";
            InputMessage "Hello"; CallSendMessage; CallSendMessage;
            InputRemotePeerId ""; CallConnect "id-2"]).
  vm_compute. apply list_elem_of_further, list_elem_of_here.
Defined.

(** X11. One event issues at most one call on the transport. Only
    [connect] asks for a connection, and then to the entered identifier,
    which is non-empty and differs from the local identifier of that
    moment; only [sendMessage] sends, and then the non-empty composition
    buffer. No other event (deleting a conversation, inbound data, an
    inbound connection, a timer) touches the transport. *)
Theorem X11_calls_issued_by_one_step (s : State) (e : Event) :
  calls (step s e) = calls s ∨
  (∃ u, e = CallConnect u ∧
        calls (step s e) = calls s ++ [Peer.Connect (remotePeerId s)] ∧
        remotePeerId s ≠ "" ∧ remotePeerId s ≠ peerId s) ∨
  (∃ conn, e = CallSendMessage ∧
           calls (step s e) = calls s ++ [Peer.Send conn (message s)] ∧
           message s ≠ "").
Proof. apply step_calls_shape. Qed.

(** ** Histories only grow *)

Lemma elem_of_alter_inv {A} (f : A → A) (i : nat) (l : list A) (x : A) :
  x ∈ alter f i l → x ∈ l ∨ ∃ y, y ∈ l ∧ x = f y.
Proof.
  intros [j Hj]%list_elem_of_lookup. destruct (decide (i = j)) as [<-|Hne].
  - rewrite list_lookup_alter_eq in Hj.
    destruct (l !! i) as [y|] eqn:Hi; simplify_eq/=.
    right. exists y. split; [|done]. by eapply list_elem_of_lookup_2.
  - rewrite list_lookup_alter_ne in Hj by done.
    left. by eapply list_elem_of_lookup_2.
Qed.

(** Where a conversation listed after a step comes from: a conversation
    listed before it, with the same id and peerId and with the same
    messages or one more at the end, or the [setupConnection] of the
    step, with no messages. *)
Lemma step_conversation_origin s e c' :
  c' ∈ conversations (step s e) →
  (∃ c, c ∈ conversations s ∧
        Conversation.id c' = Conversation.id c ∧
        Conversation.peerId c' = Conversation.peerId c ∧
        (Conversation.messages c' = Conversation.messages c ∨
         ∃ m, sender_known m ∧
              Conversation.messages c' = Conversation.messages c ++ [m]))
  ∨ (Conversation.messages c' = [] ∧ token e = [Conversation.id c']).
Proof.
  assert (∀ l, c' ∈ l →
            l = conversations s →
            ∃ c, c ∈ conversations s ∧
                 Conversation.id c' = Conversation.id c ∧
                 Conversation.peerId c' = Conversation.peerId c ∧
                 (Conversation.messages c' = Conversation.messages c ∨
                  ∃ m, sender_known m ∧
                       Conversation.messages c' = Conversation.messages c ++ [m]))
    as Hsame by (intros l Hc ->; exists c'; auto).
  assert (∀ m i, sender_known m →
            c' ∈ alter (Conversation.push_message m) i (conversations s) →
            ∃ c, c ∈ conversations s ∧
                 Conversation.id c' = Conversation.id c ∧
                 Conversation.peerId c' = Conversation.peerId c ∧
                 (Conversation.messages c' = Conversation.messages c ∨
                  ∃ m, sender_known m ∧
                       Conversation.messages c' = Conversation.messages c ++ [m]))
    as Hpush.
  { intros m i Hm [Hc|(c & Hc & -> )]%elem_of_alter_inv; [by eapply Hsame|].
    exists c. split_and!; [done..|]. right. by exists m. }
  assert (∀ v i,
            c' ∈ alter (Conversation.set_title v) i (conversations s) →
            ∃ c, c ∈ conversations s ∧
                 Conversation.id c' = Conversation.id c ∧
                 Conversation.peerId c' = Conversation.peerId c ∧
                 (Conversation.messages c' = Conversation.messages c ∨
                  ∃ m, sender_known m ∧
                       Conversation.messages c' = Conversation.messages c ++ [m]))
    as Htitle.
  { intros v i [Hc|(c & Hc & -> )]%elem_of_alter_inv; [by eapply Hsame|].
    exists c. split_and!; [done..|]. by left. }
  destruct e; simpl; try (intros Hc; left; by eapply Hsame).
  - destruct (peer s); intros Hc; left; by eapply Hsame.
  - destruct (peer s); [|intros Hc; left; by eapply Hsame].
    simpl. intros [Hc| -> ]%elem_of_snoc; [left; by eapply Hsame|by right].
  - unfold onData. destruct (find_peerId _ _) as [[i c]|];
      [|intros Hc; left; by eapply Hsame].
    simpl. intros Hc. left. eapply Hpush; [|exact Hc]. by right.
  - destruct (timers s !! n) as [[d []]|]; intros Hc; left; by eapply Hsame.
  - intros Hc. left. by eapply Htitle.
  - destruct (conversations s !! n); intros Hc; left; by eapply Hsame.
  - unfold connect. destruct (peer s); [|intros Hc; left; by eapply Hsame].
    destruct (truthy _); [|intros Hc; left; by eapply Hsame].
    case_decide; [intros Hc; left; by eapply Hsame|].
    simpl. intros [Hc| -> ]%elem_of_snoc; [left; by eapply Hsame|by right].
  - destruct (sendMessage s) as [s'|] eqn:Hsend;
      [|intros Hc; left; by eapply Hsame].
    unfold sendMessage in Hsend.
    destruct (activeConversationId s) as [a|];
      [|simplify_eq; intros Hc; left; by eapply Hsame].
    destruct (truthy a); [|simplify_eq; intros Hc; left; by eapply Hsame].
    destruct (activeConversation s) as [[i c]|]; [|done].
    destruct (registry_get _ _);
      [|destruct (truthy (message s)); simplify_eq; intros Hc; left; by eapply Hsame
       |simplify_eq; intros Hc; left; by eapply Hsame].
    destruct (truthy (message s)); simplify_eq;
      [|intros Hc; left; by eapply Hsame].
    simpl. intros Hc. left. eapply Hpush; [|exact Hc]. by left.
  - destruct (deleteConversation_fields v s) as (_ & Hsub).
    intros Hc. left. eapply Hsame; [|done]. by eapply elem_of_sublist.
  - unfold renameConversation. destruct (find_id _ _) as [[i c]|];
      [|intros Hc; left; by eapply Hsame].
    simpl. intros Hc. left. by eapply Htitle.
Qed.

(** X12. Messages are only ever appended, and a conversation never
    changes its id or its peerId. Through any sequence of events, a
    conversation listed at the end either continues one listed at the
    start, with the same id and peerId and with the earlier messages as
    a prefix of the later ones, or was created on the way, by a
    [setupConnection] that used one of the tokens of the sequence. *)
Theorem X12_messages_append_only
    (s : State) (tr : list Event) (c' : Conversation.t) :
  c' ∈ conversations (run s tr) →
  (∃ c, c ∈ conversations s ∧
        Conversation.id c' = Conversation.id c ∧
        Conversation.peerId c' = Conversation.peerId c ∧
        Conversation.messages c `prefix_of` Conversation.messages c')
  ∨ Conversation.id c' ∈ tokens tr.
Proof.
  revert s. induction tr as [|e tr IH]; intros s Hc.
  - left. by exists c'.
  - apply IH in Hc as [(c1 & Hc1 & Hid & Hpeer & Hpre)|Htok].
    + apply step_conversation_origin in Hc1
        as [(c & Hc & Hid1 & Hpeer1 & Hmsg)|[_ Htok]].
      * left. exists c. split_and!; [done|congruence..|].
        etransitivity; [|exact Hpre].
        destruct Hmsg as [->|(m & _ & -> )]; [done|]. by apply prefix_app_r.
      * right. unfold tokens. rewrite bind_cons, Htok, Hid.
        apply list_elem_of_here.
    + right. unfold tokens in *. rewrite bind_cons.
      apply elem_of_app. by right.
Qed.

Lemma X12_witness :
  ∃ c, c ∈ conversations
             (run init [Mounted; PeerOpen "A1"; InputRemotePeerId "B2";
                        CallConnect "id-1"; InputMessage "Hello"; CallSendMessage]) ∧
       [mkMessage "You" "Hello"] `prefix_of`
         [mkMessage "You" "Hello"; mkMessage "Remote" "Hi"].
Proof.
  destruct (X12_messages_append_only
              (run init [Mounted; PeerOpen "A1"; InputRemotePeerId "B2";
                         CallConnect "id-1"; InputMessage "Hello"; CallSendMessage])
              [ConnData (Peer.mkDataConnection "B2") "Hi";
               CallRenameConversation "id-1" "Bea"]
              (Conversation.mk "id-1" "Bea" "B2"
                 [mkMessage "You" "Hello"; mkMessage "Remote" "Hi"]))
    as [(c & Hc & _ & _ & Hpre)|Htok].
  - vm_compute. apply list_elem_of_here.
  - exists c. split; [exact Hc|].
    assert (Conversation.messages c = [mkMessage "You" "Hello"]) as <-; [|exact Hpre].
    vm_compute in Hc. apply list_elem_of_singleton in Hc. by subst.
  - vm_compute in Htok. by apply not_elem_of_nil in Htok.
Defined.

(** X13. Every message of every conversation listed in a state reached
    from the initial one has sender "You" or "Remote", the two values the
    template turns into the classes [you] and [remote]. *)
Theorem X13_senders_are_you_or_remote
    (tr : list Event) (c : Conversation.t) (m : Message) :
  c ∈ conversations (run init tr) →
  m ∈ Conversation.messages c →
  sender_known m.
Proof.
  revert c m. induction tr as [|e tr IH] using rev_ind; intros c m Hc Hm.
  - by apply not_elem_of_nil in Hc.
  - unfold run in *. rewrite foldl_snoc in Hc.
    apply step_conversation_origin in Hc
      as [(c0 & Hc0 & _ & _ & Hmsg)|[Hnil _]].
    + destruct Hmsg as [Heq|(m0 & Hm0 & Heq)]; rewrite Heq in Hm.
      * by eapply IH.
      * apply elem_of_snoc in Hm as [Hm| -> ]; [by eapply IH|done].
    + rewrite Hnil in Hm. by apply not_elem_of_nil in Hm.
Qed.

Lemma X13_witness : sender_known (mkMessage "Remote" "Hi").
Proof.
  apply (X13_senders_are_you_or_remote
           [Mounted; PeerOpen "A1"; InputRemotePeerId "B2"; CallConnect "id-1";
            InputMessage "Hello"; CallSendMessage;
            ConnData (Peer.mkDataConnection "B2") "Hi"]
           (Conversation.mk "id-1" "Chat with B2..." "B2"
              [mkMessage "You" "Hello"; mkMessage "Remote" "Hi"])).
  - vm_compute. apply list_elem_of_here.
  - apply list_elem_of_further, list_elem_of_here.
Defined.

(** ** Setting up a connection, then using it *)






(** ** The error message and its timers *)

(** X16. Timers are never cancelled. After two rejected self-connection
    attempts two timers are pending, and the first one to fire (the one
    of the first attempt) already clears the error message that the
    second attempt set, while the timer of the second attempt is still
    pending. *)
Theorem X16_first_timer_clears_second_error
    (u u' : string) (s : State) (pr : Peer.t) :
  peer s = Some pr →
  remotePeerId s ≠ "" →
  remotePeerId s = peerId s →
  let s2 := connect u' (connect u s) in
  let s3 := step s2 (TimerFired (length (timers s))) in
  errorMessage s2 = "You can't connect to yourself!" ∧
  timers s2 = timers s ++ [(3000, ClearErrorMessage); (3000, ClearErrorMessage)] ∧
  errorMessage s3 = "" ∧
  showErrorMessage s3 = false ∧
  timers s3 = timers s ++ [(3000, ClearErrorMessage)].
Proof.
  intros Hp Hne Hself.
  assert (∀ v s0, peer s0 = Some pr → remotePeerId s0 = remotePeerId s →
                  peerId s0 = peerId s →
                  connect v s0
                  = set_timers (set_errorMessage s0 "You can't connect to yourself!")
                      (timers s0 ++ [(3000, ClearErrorMessage)])) as Hrej.
  { intros v s0 Hp0 Hr0 Hl0. unfold connect. rewrite Hp0, Hr0, Hl0.
    rewrite (truthy_nonempty (remotePeerId s)) by done.
    by rewrite decide_True. }
  simpl. rewrite (Hrej u s) by done. rewrite Hrej by done. simpl.
  rewrite <- app_assoc. simpl.
  rewrite list_lookup_middle by done. simpl.
  rewrite delete_middle. unfold showErrorMessage. simpl.
  split_and!; try done. apply andb_false_r.
Qed.

Lemma X16_witness :
  let s := run init [Mounted; PeerOpen "A1"; InputRemotePeerId "A1"] in
  errorMessage (step (connect "id-2" (connect "id-1" s)) (TimerFired 0)) = "" ∧
  timers (step (connect "id-2" (connect "id-1" s)) (TimerFired 0))
    = [(3000, ClearErrorMessage)].
Proof.
  intros s.
  destruct (X16_first_timer_clears_second_error "id-1" "id-2" s Peer.New)
    as (_ & _ & Herr & _ & Htimers).
  - reflexivity.
  - vm_compute. discriminate.
  - vm_compute. reflexivity.
  - split; [exact Herr | exact Htimers].
Defined.

(** ** Back to the connect form *)

(** X17. [newConversation] brings back the connect form with an empty
    target and removes nothing: the conversations, the registry and the
    composition buffer are kept. Straight after it, [connect] does
    nothing (the target is empty) and [sendMessage] does nothing (no
    conversation is active), until a target is typed or a conversation
    is clicked. *)
Theorem X17_newConversation_then_nothing_to_do (u : string) (s : State) :
  showConnectForm (newConversation s) = true ∧
  conversations (newConversation s) = conversations s ∧
  connections (newConversation s) = connections s ∧
  message (newConversation s) = message s ∧
  connect u (newConversation s) = newConversation s ∧
  sendMessage (newConversation s) = Ok (newConversation s) ∧
  ∀ c, c ∈ conversations s → showMessageInput (newConversation s) c = false.
Proof.
  split_and!; try done.
  unfold connect. simpl. by destruct (peer s).
Qed.

(** ** Clicking, editing and deleting with distinct ids *)

Lemma find_id_nth (l : list Conversation.t) (n : nat) (c : Conversation.t) :
  NoDup (Conversation.id <$> l) →
  l !! n = Some c →
  find_id (Conversation.id c) l = Some (n, c).
Proof.
  intros Hnd Hn. apply list_find_Some. split_and!; [done..|].
  intros j y Hj Hlt Hid.
  assert (j = n); [|lia].
  eapply (NoDup_lookup _ _ _ (Conversation.id c) Hnd).
  - by rewrite list_lookup_fmap, Hj, <- Hid.
  - by rewrite list_lookup_fmap, Hn.
Qed.

Lemma find_peerId_not_in (p : string) (l : list Conversation.t) :
  p ∉ (Conversation.peerId <$> l) → find_peerId p l = None.
Proof.
  intros Hp. apply list_find_None, Forall_forall. intros c Hc Hpc.
  apply Hp, list_elem_of_fmap. eauto.
Qed.

(** X18. Clicking the message area of the n-th box, when the listed ids
    are pairwise distinct, makes that very conversation the active one:
    the computed [activeConversation] is the n-th record, its box shows
    the message input, the connect form is hidden when the id is
    non-empty, and nothing else changes. *)
Theorem X18_click_activates_that_conversation
    (s : State) (n : nat) (c : Conversation.t) :
  NoDup (ids s) →
  conversations s !! n = Some c →
  step s (ClickMessages n)
    = set_activeConversationId s (Some (Conversation.id c)) ∧
  activeConversation (step s (ClickMessages n)) = Some (n, c) ∧
  showMessageInput (step s (ClickMessages n)) c = true ∧
  (Conversation.id c ≠ "" → showConnectForm (step s (ClickMessages n)) = false).
Proof.
  intros Hnd Hn. simpl. rewrite Hn.
  unfold activeConversation, showMessageInput, showConnectForm. simpl.
  split_and!; [done | by apply find_id_nth | by apply bool_decide_eq_true |].
  intros Hne. by rewrite truthy_nonempty.
Qed.

Lemma X18_witness :
  let s := run init [Mounted;
                     PeerConnection (Peer.mkDataConnection "B2") "id-1";
                     PeerConnection (Peer.mkDataConnection "C3") "id-2"] in
  activeConversation (step s (ClickMessages 0))
  = Some (0, Conversation.mk "id-1" "Chat with B2..." "B2" []).
Proof.
  intros s.
  destruct (X18_click_activates_that_conversation s 0
              (Conversation.mk "id-1" "Chat with B2..." "B2" []))
    as (_ & Hact & _).
  - vm_compute. apply NoDup_cons. split; [|apply NoDup_singleton].
    intros Hin.
    repeat (apply elem_of_cons in Hin as [Hin|Hin]; [discriminate Hin|]).
    by apply not_elem_of_nil in Hin.
  - vm_compute. reflexivity.
  - exact Hact.
Defined.

(** X19. Deleting a conversation does not remove the [data] listener of
    its connection: once the only conversation with a peer has been
    deleted, a [data] event on the connection to that peer finds no
    conversation and is dropped, leaving the state exactly as the
    deletion left it. *)
Theorem X19_data_after_delete_is_dropped
    (v text : string) (conn : Peer.DataConnection) (s : State)
    (l1 l2 : list Conversation.t) (c : Conversation.t) :
  conversations s = l1 ++ c :: l2 →
  Conversation.id c = v →
  v ∉ (Conversation.id <$> l1) →
  Conversation.peerId c = Peer.peer conn →
  Peer.peer conn ∉ (Conversation.peerId <$> l1 ++ l2) →
  onData conn text (deleteConversation v s) = deleteConversation v s.
Proof.
  intros Hl Hc Hl1 Hpeer Hothers.
  assert (conversations (deleteConversation v s) = l1 ++ l2) as Hconv.
  { unfold deleteConversation. rewrite Hl.
    rewrite (find_id_first v l1 l2 c) by done. simpl.
    rewrite delete_middle. by case_decide. }
  unfold onData. rewrite Hconv. by rewrite find_peerId_not_in.
Qed.

Lemma X19_witness :
  let s := run init [Mounted;
                     PeerConnection (Peer.mkDataConnection "B2") "id-1";
                     PeerConnection (Peer.mkDataConnection "C3") "id-2"] in
  onData (Peer.mkDataConnection "B2") "Hi" (deleteConversation "id-1" s)
  = deleteConversation "id-1" s.
Proof.
  intros s.
  apply (X19_data_after_delete_is_dropped "id-1" "Hi" (Peer.mkDataConnection "B2") s
           [] [Conversation.mk "id-2" "Chat with C3..." "C3" []]
           (Conversation.mk "id-1" "Chat with B2..." "B2" [])).
  - vm_compute. reflexivity.
  - reflexivity.
  - apply not_elem_of_nil.
  - reflexivity.
  - vm_compute. intros Hin.
    repeat (apply elem_of_cons in Hin as [Hin|Hin]; [discriminate Hin|]).
    by apply not_elem_of_nil in Hin.
Defined.

(** X20. The title input is bound with [v-model] and also calls
    [renameConversation(conv.id, conv.title)] when it loses focus. With
    pairwise distinct ids that call changes nothing: the binding has
    already written the title into the very record the call finds. *)
Theorem X20_rename_on_blur_is_redundant
    (s : State) (n : nat) (c : Conversation.t) (t : string) :
  NoDup (ids s) →
  conversations s !! n = Some c →
  renameConversation (Conversation.id c) t (step s (InputTitle n t))
  = step s (InputTitle n t).
Proof.
  intros Hnd Hn. simpl. unfold renameConversation. simpl.
  assert (find_id (Conversation.id c)
            (alter (Conversation.set_title t) n (conversations s))
          = Some (n, Conversation.set_title t c)) as Hfind.
  { apply (find_id_nth _ n (Conversation.set_title t c)).
    - by rewrite ids_alter_title.
    - by rewrite list_lookup_alter_eq, Hn. }
  rewrite Hfind. unfold set_conversations. simpl. f_equal.
  apply list_eq. intros j. destruct (decide (n = j)) as [<-|Hne].
  - rewrite !list_lookup_alter_eq, Hn. done.
  - by rewrite !list_lookup_alter_ne.
Qed.

Lemma X20_witness :
  let s := run init [Mounted;
                     PeerConnection (Peer.mkDataConnection "B2") "id-1";
                     PeerConnection (Peer.mkDataConnection "C3") "id-2"] in
  renameConversation "id-2" "Cleo" (step s (InputTitle 1 "Cleo"))
  = step s (InputTitle 1 "Cleo").
Proof.
  intros s.
  apply (X20_rename_on_blur_is_redundant s 1
           (Conversation.mk "id-2" "Chat with C3..." "C3" []) "Cleo").
  - vm_compute. apply NoDup_cons. split; [|apply NoDup_singleton].
    intros Hin.
    repeat (apply elem_of_cons in Hin as [Hin|Hin]; [discriminate Hin|]).
    by apply not_elem_of_nil in Hin.
  - vm_compute. reflexivity.
Defined.
